(** * Fornaxian/config: the configuration manager of [config.go]

    A shallow embedding of [New] and [Manager.LoadConfig], and the
    properties of the search over the candidate paths.

    The program talks to three collaborators that are not part of the
    package: the operating system (files, environment, process exit), the
    logging package and the TOML decoder.  The operating system and the
    decoder are parameters of the development; log calls, file accesses
    and printed lines are recorded as events in the order the program
    performs them. *)

From Stdlib Require Import ZArith Ascii.
From stdpp Require Import base option list strings gmap.


Module Config.

(** ** Values of the Go program *)

(** The [error] values the package produces: the marker type
    [ErrNoConfigFound], a struct without fields, and the value built by
    [fmt.Errorf].  The nil error is [None] of [option error]. *)
Inductive error : Type :=
  | ErrNoConfigFound
  | Errorf (msg : string).

(** [ErrNoConfigFound.Error]. *)
Definition Error (e : error) : string :=
  match e with
  | ErrNoConfigFound => "no config files found at the configured locations"
  | Errorf msg => msg
  end.

(** Result of a library call that returns a value or an error; the error
    is kept as its message, which is all the program does with it. *)
Inductive result (A : Type) : Type :=
  | Ok (a : A)
  | Err (msg : string).
Arguments Ok {A} a.
Arguments Err {A} msg.

(** The line feed of the Go string literals. *)
Definition nl : string := String (Ascii.ascii_of_nat 10) "".

Inductive Level : Type := Debug | Info | Warn.

(** What the process does to the outside, in order: a call of the logging
    package with its format and arguments, [ioutil.ReadFile],
    [ioutil.WriteFile] and [fmt.Println]. *)
Inductive Event : Type :=
  | EvLog (lvl : Level) (format : string) (args : list string)
  | EvRead (path : string)
  | EvWrite (path data : string) (perm : Z)
  | EvPrintln (line : string).

(** The paths handed to [ioutil.ReadFile], in order. *)
Definition reads (evs : list Event) : list string :=
  omap (λ e, match e with EvRead p => Some p | _ => None end) evs.

(** The [Manager] struct.  [Conf] is the caller's object the manager holds
    a pointer to; the record carries the object's current contents. *)
Record Manager (ConfT : Type) : Type := mkManager {
  confPaths : list string;
  fileName : string;
  defaultConfig : string;
  Conf : ConfT;
}.
Arguments mkManager {ConfT}.
Arguments confPaths {ConfT}.
Arguments fileName {ConfT}.
Arguments defaultConfig {ConfT}.
Arguments Conf {ConfT}.

(** Storing through the [Conf] pointer. *)
Definition withConf {ConfT} (c : Manager ConfT) (conf : ConfT) : Manager ConfT :=
  mkManager (confPaths c) (fileName c) (defaultConfig c) conf.

(** ** The process monad *)

(** A computation either returns or ends the process with [os.Exit]. *)
Inductive Outcome (A : Type) : Type :=
  | Done (a : A)
  | Exit (code : Z).
Arguments Done {A} a.
Arguments Exit {A} code.

Section Process.
(** The state of the file system, and the environment variables. *)
Context {FS : Type}.

Record World : Type := mkWorld {
  w_fs : FS;
  w_env : string → string;
}.

(** A computation runs in a world and yields an outcome, the world it
    leaves and the events it performed. *)
Definition Proc (A : Type) : Type := World → Outcome A * World * list Event.

Definition ret {A} (a : A) : Proc A := λ w, (Done a, w, []).

Definition bind {A B} (m : Proc A) (f : A → Proc B) : Proc B :=
  λ w,
    match m w with
    | (Done a, w1, evs1) =>
        match f a w1 with
        | (o, w2, evs2) => (o, w2, evs1 ++ evs2)
        end
    | (Exit code, w1, evs1) => (Exit code, w1, evs1)
    end.

Definition emit (e : Event) : Proc unit := λ w, (Done tt, w, [e]).

Definition exit {A} (code : Z) : Proc A := λ w, (Exit code, w, []).

Definition getenv (name : string) : Proc string :=
  λ w, (Done (w_env w name), w, []).
End Process.
Arguments World FS : clear implicits.
Arguments Proc FS A : clear implicits.

Notation "'let*' x := m 'in' k" := (bind m (λ x, k))
  (at level 10, x name, m at level 100, k at level 200,
   format "'let*'  x  :=  m  'in'  '/' k").
Notation "'do' m 'then' k" := (bind m (λ _, k))
  (at level 10, m at level 100, k at level 200,
   format "'do'  m  'then'  '/' k").

(** ** The package *)

Section Package.
(** The type of the caller's configuration object and the decoder:
    [Decode data conf] is [toml.Decode(data, conf)], giving the contents
    of the object after the call and the error, if any.  The object is
    written in place, so it may have changed when an error is returned. *)
Context {ConfT : Type}.
Variable Decode : string → ConfT → ConfT * option string.

(** The operating system: [ioutil.ReadFile] and [ioutil.WriteFile]. *)
Context {FS : Type}.
Variable ReadFile : FS → string → result string.
Variable WriteFile : FS → string → string → Z → FS * option string.

Definition log (lvl : Level) (format : string) (args : list string)
  : Proc FS unit :=
  emit (EvLog lvl format args).

Definition readFile (path : string) : Proc FS (result string) :=
  λ w, (Done (ReadFile (w_fs w) path), w, [EvRead path]).

Definition writeFile (path data : string) (perm : Z)
  : Proc FS (option string) :=
  λ w,
    let '(fs', err) := WriteFile (w_fs w) path data perm in
    (Done err, mkWorld fs' (w_env w), [EvWrite path data perm]).

Fixpoint printAll (lines : list string) : Proc FS unit :=
  match lines with
  | [] => ret tt
  | cd :: rest => do emit (EvPrintln cd) then printAll rest
  end.

(** The body of the loop of [LoadConfig] for the candidate [cd].  The
    boolean tells whether the body returned nil ([true]) or went on to
    the next candidate ([false]). *)
Definition tryPath (cd : string) (c : Manager ConfT)
  : Proc FS (Manager ConfT * bool) :=
  if String.eqb cd "" then ret (c, false)
  else
    do log Debug "Trying configuration file '%s'" [cd] then
    let* r := readFile cd in
    match r with
    | Err e =>
        do log Debug "No config found at '%s' (%s)" [cd; e] then
        ret (c, false)
    | Ok confStr =>
        let '(conf', err) := Decode confStr (Conf c) in
        match err with
        | Some e =>
            do log Warn "Unable to decode config file at '%s': %s" [cd; e] then
            ret (withConf c conf', false)
        | None => ret (withConf c conf', true)
        end
    end.

(** [for _, cd := range paths { ... }; return ErrNoConfigFound{}]. *)
Fixpoint rangePaths (paths : list string) (c : Manager ConfT)
  : Proc FS (Manager ConfT * option error) :=
  match paths with
  | [] => ret (c, Some ErrNoConfigFound)
  | cd :: rest =>
      let* r := tryPath cd c in
      if r.2 then ret (r.1, None) else rangePaths rest r.1
  end.

Definition LoadConfig (c : Manager ConfT)
  : Proc FS (Manager ConfT * option error) :=
  rangePaths (confPaths c) c.

(** The permission bits [0644] that [New] passes to [ioutil.WriteFile]:
    octal 644 is 6 * 64 + 4 * 8 + 4. *)
Definition perm0644 : Z := 420.

(** The candidate paths [New] builds, given the value of [$HOME]. *)
Definition candidates (confDir fileName home : string) : list string :=
  [ confDir +:+ "/" +:+ fileName;
    fileName;
    home +:+ "/.config/" +:+ fileName;
    "/usr/local/etc/" +:+ fileName;
    "/etc/" +:+ fileName ].

(** [New] returns the pair of its two results; [None] in the first is
    the nil manager. *)
Definition New (defaultConf confDir fileName : string) (config : ConfT)
    (autoload : bool)
  : Proc FS (option (Manager ConfT) * option error) :=
  let* home := getenv "HOME" in
  let c := mkManager (candidates confDir fileName home)
                     fileName defaultConf config in
  let '(conf', err) := Decode defaultConf (Conf c) in
  let c := withConf c conf' in
  match err with
  | Some e =>
      ret (None, Some (Errorf ("failed to decode default config: " +:+ e)))
  | None =>
      if negb autoload then ret (Some c, None)
      else
        let* r := LoadConfig c in
        let c := r.1 in
        match r.2 with
        | Some ErrNoConfigFound =>
            do log Info ("No configuration files were found, a new one will be "
                      +:+ "generated in the present working directory") [] then
            let* werr := writeFile fileName defaultConf perm0644 in
            match werr with
            | Some e =>
                do log Warn
                  ("A default config file could not be created in this directory "
                   +:+ "for the following reason: %s." +:+ nl +:+ nl
                   +:+ "Please manually create a configuration file in one "
                   +:+ "of the following places:" +:+ nl) [e; fileName] then
                do printAll (confPaths c) then
                exit 1%Z
            | None => exit 0%Z
            end
        | _ =>
            do log Info "Successfully loaded configuration file" [] then
            ret (Some c, None)
        end
  end.

(** *** Vocabulary for the candidates *)

(** The candidate [cd] cannot be read. *)
Definition Unreadable (fs : FS) (cd : string) : Prop :=
  ∃ e, ReadFile fs cd = Err e.

(** With the object holding [conf], the loop goes past [cd]: the path is
    empty, the file cannot be read, or its text is not decoded. *)
Definition RejectedAt (fs : FS) (conf : ConfT) (cd : string) : Prop :=
  cd = "" ∨ Unreadable fs cd
  ∨ ∃ t, ReadFile fs cd = Ok t ∧ (Decode t conf).2 ≠ None.

(** With the object holding [conf], the loop stops at [cd], whose file
    holds the text [t]. *)
Definition LoadableAt (fs : FS) (conf : ConfT) (cd t : string) : Prop :=
  cd ≠ "" ∧ ReadFile fs cd = Ok t ∧ (Decode t conf).2 = None.

(** The contents of the object once the loop body has run for [cd]: a
    file that is read is decoded into the object, with or without
    success. *)
Definition passOver (fs : FS) (conf : ConfT) (cd : string) : ConfT :=
  if String.eqb cd "" then conf
  else match ReadFile fs cd with
       | Ok t => (Decode t conf).1
       | Err _ => conf
       end.

Definition passAll (fs : FS) (cds : list string) (conf : ConfT) : ConfT :=
  foldl (passOver fs) conf cds.

(** The loop goes past every candidate of [cds], one after the other,
    starting with the object holding [conf]. *)
Fixpoint AllRejected (fs : FS) (conf : ConfT) (cds : list string) : Prop :=
  match cds with
  | [] => True
  | cd :: rest =>
      RejectedAt fs conf cd ∧ AllRejected fs (passOver fs conf cd) rest
  end.

(** A text the decoder accepts, resp. refuses, whatever the object
    holds, and the candidates that hold such texts. *)
Definition Decodable (t : string) : Prop :=
  ∀ conf, (Decode t conf).2 = None.
Definition Malformed (t : string) : Prop :=
  ∀ conf, (Decode t conf).2 ≠ None.

Definition Loadable (fs : FS) (cd t : string) : Prop :=
  cd ≠ "" ∧ ReadFile fs cd = Ok t ∧ Decodable t.

Definition Rejected (fs : FS) (cd : string) : Prop :=
  cd = "" ∨ Unreadable fs cd ∨ ∃ t, ReadFile fs cd = Ok t ∧ Malformed t.

(** *** Vocabulary for the events and the fields *)

(** The three log lines of the loop. *)
Definition logTrying (cd : string) : Event :=
  EvLog Debug "Trying configuration file '%s'" [cd].
Definition logNoConfig (cd e : string) : Event :=
  EvLog Debug "No config found at '%s' (%s)" [cd; e].
Definition logUndecodable (cd e : string) : Event :=
  EvLog Warn "Unable to decode config file at '%s': %s" [cd; e].

(** An event that is a log line or a read of a file. *)
Definition quiet (e : Event) : Prop :=
  match e with
  | EvLog _ _ _ | EvRead _ => True
  | EvWrite _ _ _ | EvPrintln _ => False
  end.

(** The manager [New] has built once the default document is decoded. *)
Definition built (defaultConf confDir fileName home : string) (conf : ConfT)
  : Manager ConfT :=
  mkManager (candidates confDir fileName home) fileName defaultConf conf.



(** An event the search over the candidates [paths] can perform: the
    announcement of a candidate, the read of a candidate that is not the
    empty string, the debug line for a file that could not be read, with
    the error of the read, and the warning for a file that was read and
    not decoded, with the error of the decoder. *)
Definition searchEvent (fs : FS) (paths : list string) (e : Event) : Prop :=
  ∃ cd, cd ∈ paths ∧ cd ≠ "" ∧
    (e = logTrying cd
     ∨ e = EvRead cd
     ∨ (∃ msg, ReadFile fs cd = Err msg ∧ e = logNoConfig cd msg)
     ∨ (∃ t conf msg, ReadFile fs cd = Ok t ∧ (Decode t conf).2 = Some msg
                      ∧ e = logUndecodable cd msg)).
End Package.

End Config.
Import Config.

(** ** An application of the package

    A program with a two-field configuration struct

      struct { Port int `toml:"port"`; Host string `toml:"host"` }

    a decoder for a small part of TOML (one [key = value] per line, the
    value an integer or a string between single quotes) and a file system
    that is a map from paths to file contents. *)

Module Demo.
Record AppConf : Type := mkAppConf {
  Port : Z;
  Host : string;
}.

Inductive Val : Type :=
  | VInt (n : Z)
  | VStr (s : string).

Inductive Field : Type := FPort | FHost.

(** The field a key of a document is stored in; keys the struct has no
    tag for are not decoded. *)
Definition fieldOf (key : string) : option Field :=
  if String.eqb key "port" then Some FPort
  else if String.eqb key "host" then Some FHost
  else None.

(** *** Parsing *)

Fixpoint splitOn (sep : ascii) (s : string) : list string :=
  match s with
  | EmptyString => [""]
  | String a s' =>
      if Ascii.eqb a sep then "" :: splitOn sep s'
      else match splitOn sep s' with
           | piece :: pieces => String a piece :: pieces
           | [] => [String a ""]
           end
  end.

Definition digit (a : ascii) : option Z :=
  let n := Z.of_nat (Ascii.nat_of_ascii a) in
  if bool_decide (48 ≤ n ≤ 57)%Z then Some (n - 48)%Z else None.

Fixpoint parseDigits (acc : Z) (s : string) : option Z :=
  match s with
  | EmptyString => Some acc
  | String a s' =>
      match digit a with
      | Some d => parseDigits (10 * acc + d) s'
      | None => None
      end
  end.

Definition quote : ascii := Ascii.ascii_of_nat 39.

(** A value: ['text'] or a non-empty run of digits. *)
Definition parseVal (s : string) : option Val :=
  match s with
  | EmptyString => None
  | String a s' =>
      if Ascii.eqb a quote then
        match String.rev s' with
        | String b body =>
            if Ascii.eqb b quote then Some (VStr (String.rev body)) else None
        | EmptyString => None
        end
      else VInt <$> parseDigits 0 s
  end.

(** A line: blank, or [key = value]. *)
Definition parseLine (line : string) : option (option (string * Val)) :=
  match String.words line with
  | [] => Some None
  | [key; eq; val] =>
      if String.eqb eq "=" then
        v ← parseVal val; Some (Some (key, v))
      else None
  | _ => None
  end.

Fixpoint parseLines (lines : list string) : option (list (string * Val)) :=
  match lines with
  | [] => Some []
  | line :: rest =>
      entry ← parseLine line;
      entries ← parseLines rest;
      Some (option_list entry ++ entries)
  end.

Definition parse (data : string) : option (list (string * Val)) :=
  parseLines (splitOn (Ascii.ascii_of_nat 10) data).

(** *** Storing into the struct *)

(** Storing a value in a field; a value of the wrong type is refused. *)
Definition store (f : Field) (v : Val) (conf : AppConf) : option AppConf :=
  match f, v with
  | FPort, VInt n => Some (mkAppConf n (Host conf))
  | FHost, VStr s => Some (mkAppConf (Port conf) s)
  | _, _ => None
  end.

(** The keys are stored one after the other; the first value of the
    wrong type ends the decoding, with the earlier keys stored. *)
Fixpoint unify (entries : list (string * Val)) (conf : AppConf)
  : AppConf * option string :=
  match entries with
  | [] => (conf, None)
  | (key, v) :: rest =>
      match fieldOf key with
      | None => unify rest conf
      | Some f =>
          match store f v conf with
          | Some conf' => unify rest conf'
          | None => (conf, Some ("toml: incompatible types for key " +:+ key))
          end
      end
  end.

(** The decoder: the whole text is parsed before the object is
    touched. *)
Definition decode (data : string) (conf : AppConf) : AppConf * option string :=
  match parse data with
  | None => (conf, Some "toml: syntax error")
  | Some entries => unify entries conf
  end.



(** A document given by its lines. *)
Definition lines (ls : list string) : string := String.concat nl ls.

(** *** The file system *)

(** Files by path, each with its permission bits and contents, and
    whether files can be created. *)
Record SimFS : Type := mkSimFS {
  files : gmap string (Z * string);
  readOnly : bool;
}.

Definition simRead (fs : SimFS) (path : string) : result string :=
  match files fs !! path with
  | Some (_, data) => Ok data
  | None => Err ("open " +:+ path +:+ ": no such file or directory")
  end.

Definition simWrite (fs : SimFS) (path data : string) (perm : Z)
  : SimFS * option string :=
  if readOnly fs then
    (fs, Some ("open " +:+ path +:+ ": read-only file system"))
  else
    (mkSimFS (<[path := (perm, data)]> (files fs)) false, None).

Definition world (fs : SimFS) : World SimFS :=
  mkWorld fs (λ name, if String.eqb name "HOME" then "/home/app" else "").

Definition loadConfig := LoadConfig decode simRead.
Definition new := New decode simRead simWrite.

(** The default document of the application and the zero value of its
    struct. *)
Definition defaults : string := lines ["port = 8080"; "host = 'localhost'"].
Definition zero : AppConf := mkAppConf 0 "".

(** The manager of the application, with [/opt/app] for its own
    directory, once the defaults are decoded. *)
Definition mgr : Manager AppConf :=
  built defaults "/opt/app" "app.toml" "/home/app" (mkAppConf 8080 "localhost").

Definition file (data : string) : Z * string := (420%Z, data).

(** No file at all, on a file system that accepts new files and on one
    that does not. *)
Definition fsNone : SimFS := mkSimFS ∅ false.
Definition fsLocked : SimFS := mkSimFS ∅ true.

(** A file in the working directory and one in [/etc], both well
    formed. *)
Definition fsTwo : SimFS :=
  mkSimFS {[ "app.toml" := file (lines ["port = 9000"]);
             "/etc/app.toml" := file (lines ["host = 'example.org'"]) ]}
          false.

(** A file in the working directory whose second key has a value of the
    wrong type, and a well-formed file in [/etc]. *)
Definition fsBadGood : SimFS :=
  mkSimFS {[ "app.toml" := file (lines ["port = 7"; "host = 5"]);
             "/etc/app.toml" := file (lines ["host = 'example.org'"]) ]}
          false.

(** A file that is not TOML in the working directory, nothing else. *)
Definition fsBad : SimFS :=
  mkSimFS {[ "app.toml" := file "port 7" ]} false.


(** A file in the root directory, nothing else. *)
Definition fsRoot : SimFS :=
  mkSimFS {[ "/app.toml" := file (lines ["port = 9"]) ]} false.
End Demo.


(** * Properties of the search *)

Section Facts.
Context {ConfT FS : Type}.
Variable Decode : string → ConfT → ConfT * option string.
Variable ReadFile : FS → string → result string.
Variable WriteFile : FS → string → string → Z → FS * option string.

Local Abbreviation tryPath := (Config.tryPath Decode ReadFile).
Local Abbreviation rangePaths := (Config.rangePaths Decode ReadFile).
Local Abbreviation LoadConfig := (Config.LoadConfig Decode ReadFile).
Local Abbreviation New := (Config.New Decode ReadFile WriteFile).
Local Abbreviation Decodable := (Config.Decodable Decode).
Local Abbreviation Malformed := (Config.Malformed Decode).
Local Abbreviation Loadable := (Config.Loadable Decode ReadFile).
Local Abbreviation Unreadable := (Config.Unreadable ReadFile).
Local Abbreviation Rejected := (Config.Rejected Decode ReadFile).
Local Abbreviation passOver := (Config.passOver Decode ReadFile).
Local Abbreviation passAll := (Config.passAll Decode ReadFile).
Local Abbreviation RejectedAt := (Config.RejectedAt Decode ReadFile).
Local Abbreviation LoadableAt := (Config.LoadableAt Decode ReadFile).
Local Abbreviation AllRejected := (Config.AllRejected Decode ReadFile).
Local Abbreviation built := (Config.built (ConfT := ConfT)).

Implicit Types (c : Manager ConfT) (w : World FS) (cd t : string).

Lemma withConf_Conf c : withConf c (Conf c) = c.
Proof. by destruct c. Qed.

Lemma eqb_empty_false cd : cd ≠ "" → String.eqb cd "" = false.
Proof. intros H. by apply String.eqb_neq. Qed.

(** *** The loop body, case by case *)

Lemma tryPath_empty c w : tryPath "" c w = (Done (c, false), w, []).
Proof. reflexivity. Qed.

Lemma tryPath_unreadable cd c w e :
  cd ≠ "" → ReadFile (w_fs w) cd = Err e →
  tryPath cd c w
  = (Done (c, false), w, [logTrying cd; EvRead cd; logNoConfig cd e]).
Proof.
  intros Hne Hrd. unfold Config.tryPath.
  rewrite (eqb_empty_false _ Hne).
  unfold bind, log, emit, readFile; simpl. by rewrite Hrd.
Qed.

Lemma tryPath_malformed cd c w t conf' e :
  cd ≠ "" → ReadFile (w_fs w) cd = Ok t →
  Decode t (Conf c) = (conf', Some e) →
  tryPath cd c w
  = (Done (withConf c conf', false), w,
     [logTrying cd; EvRead cd; logUndecodable cd e]).
Proof.
  intros Hne Hrd Hdec. unfold Config.tryPath.
  rewrite (eqb_empty_false _ Hne).
  unfold bind, log, emit, readFile; simpl. by rewrite Hrd, Hdec.
Qed.

Lemma tryPath_decoded cd c w t conf' :
  cd ≠ "" → ReadFile (w_fs w) cd = Ok t →
  Decode t (Conf c) = (conf', None) →
  tryPath cd c w
  = (Done (withConf c conf', true), w, [logTrying cd; EvRead cd]).
Proof.
  intros Hne Hrd Hdec. unfold Config.tryPath.
  rewrite (eqb_empty_false _ Hne).
  unfold bind, log, emit, readFile; simpl. by rewrite Hrd, Hdec.
Qed.

(** *** The loop *)

Lemma rangePaths_continue cd rest c c' w evs1 :
  tryPath cd c w = (Done (c', false), w, evs1) →
  rangePaths (cd :: rest) c w
  = (let '(o, w', evs) := rangePaths rest c' w in (o, w', evs1 ++ evs)).
Proof. intros H. simpl. unfold bind. by rewrite H. Qed.

Lemma rangePaths_return cd rest c c' w evs1 :
  tryPath cd c w = (Done (c', true), w, evs1) →
  rangePaths (cd :: rest) c w = (Done (c', None), w, evs1).
Proof. intros H. simpl. unfold bind. rewrite H. simpl. by rewrite app_nil_r. Qed.

Lemma passOver_empty fs conf : passOver fs conf "" = conf.
Proof. reflexivity. Qed.

Lemma passOver_unreadable fs conf cd :
  Unreadable fs cd → passOver fs conf cd = conf.
Proof.
  intros [e He]. unfold Config.passOver. rewrite He.
  by destruct (String.eqb cd "").
Qed.

Lemma passOver_read fs conf cd t :
  cd ≠ "" → ReadFile fs cd = Ok t → passOver fs conf cd = (Decode t conf).1.
Proof.
  intros Hne Hrd. unfold Config.passOver.
  by rewrite (eqb_empty_false _ Hne), Hrd.
Qed.

(** Going past one candidate: the body reports no success, leaves the
    object as [passOver] tells, reads the file unless the path is empty
    and warns about a file it could read. *)
Lemma tryPath_rejected cd c w :
  RejectedAt (w_fs w) (Conf c) cd →
  ∃ evs1,
    tryPath cd c w
    = (Done (withConf c (passOver (w_fs w) (Conf c) cd), false), w, evs1)
    ∧ reads evs1 = filter (λ x, x ≠ "") [cd]
    ∧ (∀ t, cd ≠ "" → ReadFile (w_fs w) cd = Ok t →
         ∃ e, (Decode t (Conf c)).2 = Some e
              ∧ evs1 = [logTrying cd; EvRead cd; logUndecodable cd e]).
Proof.
  intros Hrej. destruct (decide (cd = "")) as [->|Hne].
  { exists []. rewrite passOver_empty, withConf_Conf. by repeat split. }
  destruct Hrej as [?|[[e He]|(t & Ht & Hbad)]]; [done|..].
  - exists [logTrying cd; EvRead cd; logNoConfig cd e].
    rewrite passOver_unreadable, withConf_Conf by by exists e.
    split; [by apply tryPath_unreadable|]. split.
    + by rewrite filter_cons_True.
    + intros t' _ Ht'. congruence.
  - destruct (Decode t (Conf c)) as [conf' [e|]] eqn:Hdec; [|done].
    exists [logTrying cd; EvRead cd; logUndecodable cd e].
    rewrite (passOver_read _ _ _ t), Hdec by done.
    split; [by eapply tryPath_malformed|]. split.
    + by rewrite filter_cons_True.
    + intros t' _ Ht'. exists e. split; [|done].
      assert (t' = t) as -> by congruence. by rewrite Hdec.
Qed.

(** Going past a run of candidates. *)
Lemma rangePaths_rejected pre rest c w :
  AllRejected (w_fs w) (Conf c) pre →
  ∃ evs1,
    reads evs1 = filter (λ x, x ≠ "") pre
    ∧ rangePaths (pre ++ rest) c w
      = (let '(o, w', evs) :=
           rangePaths rest (withConf c (passAll (w_fs w) pre (Conf c))) w in
         (o, w', evs1 ++ evs)).
Proof.
  revert c. induction pre as [|cd pre IH]; intros c Hrej.
  - exists []. split; [done|]. simpl. rewrite withConf_Conf.
    by destruct (rangePaths rest c w) as [[o w'] evs].
  - destruct Hrej as [Hcd Hpre].
    destruct (tryPath_rejected cd c w Hcd) as (evs1 & Hbody & Hreads & _).
    destruct (IH (withConf c (passOver (w_fs w) (Conf c) cd)) Hpre)
      as (evs2 & Hreads2 & Hloop).
    exists (evs1 ++ evs2). split.
    + unfold reads in *. rewrite omap_app, Hreads, Hreads2.
      by destruct (decide (cd ≠ "")) as [?|?];
        [rewrite !filter_cons_True|rewrite !filter_cons_False].
    + rewrite <- app_comm_cons.
      rewrite (rangePaths_continue _ _ _ _ _ _ Hbody), Hloop. simpl.
      destruct (rangePaths rest _ w) as [[o w'] evs].
      by rewrite app_assoc.
Qed.

Lemma Rejected_at fs cd conf : Rejected fs cd → RejectedAt fs conf cd.
Proof.
  intros [?|[?|(t & Ht & Hbad)]]; [by left|by right; left|].
  right; right. exists t. split; [done|apply Hbad].
Qed.

Lemma Forall_Rejected_all fs cds conf :
  Forall (Rejected fs) cds → AllRejected fs conf cds.
Proof.
  intros H. revert conf. induction H as [|cd cds Hcd _ IH]; intros conf.
  - done.
  - split; [by apply Rejected_at|apply IH].
Qed.

Lemma Loadable_at fs cd t conf : Loadable fs cd t → LoadableAt fs conf cd t.
Proof. intros (Hne & Hrd & Hok). by repeat split. Qed.

(** The loop stops at the first candidate it does not go past. *)
Lemma rangePaths_first_loadable pre p post tp c w :
  AllRejected (w_fs w) (Conf c) pre →
  LoadableAt (w_fs w) (passAll (w_fs w) pre (Conf c)) p tp →
  ∃ evs1,
    reads evs1 = filter (λ x, x ≠ "") pre
    ∧ rangePaths (pre ++ p :: post) c w
      = (Done (withConf c (Decode tp (passAll (w_fs w) pre (Conf c))).1, None),
         w, evs1 ++ [logTrying p; EvRead p]).
Proof.
  intros Hpre (Hne & Hrd & Hok).
  destruct (rangePaths_rejected pre (p :: post) c w Hpre)
    as (evs1 & Hreads & ->).
  exists evs1. split; [done|].
  set (cm := withConf c (passAll (w_fs w) pre (Conf c))).
  destruct (Decode tp (Conf cm)) as [conf' err] eqn:Hdec.
  simpl in Hdec, Hok. rewrite Hdec in Hok. simpl in Hok. subst err.
  rewrite (rangePaths_return p post cm (withConf cm conf') w
             [logTrying p; EvRead p]).
  - by rewrite Hdec.
  - by eapply tryPath_decoded.
Qed.

(** The body always returns, changes nothing but the object, and does
    nothing but logging and reading. *)
Lemma tryPath_total cd c w :
  ∃ b evs,
    tryPath cd c w
    = (Done (withConf c (passOver (w_fs w) (Conf c) cd), b), w, evs)
    ∧ Forall quiet evs
    ∧ reads evs = filter (λ x, x ≠ "") [cd].
Proof.
  destruct (decide (cd = "")) as [->|Hne].
  { exists false, []. by rewrite passOver_empty, withConf_Conf. }
  rewrite filter_cons_True by done.
  destruct (ReadFile (w_fs w) cd) as [t|e] eqn:Hrd.
  - rewrite (passOver_read _ _ _ t) by done.
    destruct (Decode t (Conf c)) as [conf' [e|]] eqn:Hdec.
    + exists false, [logTrying cd; EvRead cd; logUndecodable cd e].
      split_and!; [by eapply tryPath_malformed|by repeat constructor|done].
    + exists true, [logTrying cd; EvRead cd].
      split_and!; [by eapply tryPath_decoded|by repeat constructor|done].
  - rewrite passOver_unreadable, withConf_Conf by by exists e.
    exists false, [logTrying cd; EvRead cd; logNoConfig cd e].
    split_and!; [by apply tryPath_unreadable|by repeat constructor|done].
Qed.

(** The loop always returns, with nil or with [ErrNoConfigFound]; it
    leaves the world and the fields of the manager other than the object
    as they were, and does nothing but logging and reading. *)
Lemma rangePaths_frame paths c w :
  ∃ c' r evs,
    rangePaths paths c w = (Done (c', r), w, evs)
    ∧ c' = withConf c (Conf c')
    ∧ (r = None ∨ r = Some ErrNoConfigFound)
    ∧ Forall quiet evs.
Proof.
  revert c. induction paths as [|cd rest IH]; intros c.
  - exists c, (Some ErrNoConfigFound), [].
    rewrite withConf_Conf. split_and!; auto.
  - destruct (tryPath_total cd c w) as ([|] & evs1 & Hbody & Hq1 & _).
    + eexists _, None, evs1.
      rewrite (rangePaths_return _ _ _ _ _ _ Hbody). split_and!; auto.
    + rewrite (rangePaths_continue _ _ _ _ _ _ Hbody).
      destruct (IH (withConf c (passOver (w_fs w) (Conf c) cd)))
        as (c' & r & evs2 & -> & Hc' & Hr & Hq2).
      exists c', r, (evs1 ++ evs2). split_and!; [done| |done|by apply Forall_app].
      etrans; [exact Hc'|reflexivity].
Qed.

Lemma LoadConfig_total c w :
  ∃ c' r evs,
    LoadConfig c w = (Done (c', r), w, evs)
    ∧ c' = withConf c (Conf c')
    ∧ (r = None ∨ r = Some ErrNoConfigFound)
    ∧ Forall quiet evs.
Proof. apply rangePaths_frame. Qed.

Lemma printAll_events (lines : list string) w :
  printAll lines w = (Done tt, w, EvPrintln <$> lines).
Proof.
  induction lines as [|cd rest IH]; [done|].
  simpl. unfold bind, emit. by rewrite IH.
Qed.

(** *** [LoadConfig] *)

(** C2.  When two candidates hold files that can be read and decoded,
    and every candidate before the first of them is one the loop goes
    past, [LoadConfig] returns nil with the object decoded from the
    first of the two, and the files it has read are those of the
    candidates up to that one: nothing after it is read. *)
Theorem LoadConfig_earliest_wins c w pre p mid q post tp tq :
  confPaths c = pre ++ p :: mid ++ q :: post →
  Forall (Rejected (w_fs w)) pre →
  Loadable (w_fs w) p tp →
  Loadable (w_fs w) q tq →
  ∃ evs,
    LoadConfig c w
    = (Done (withConf c (Decode tp (passAll (w_fs w) pre (Conf c))).1, None),
       w, evs)
    ∧ reads evs = filter (λ cd, cd ≠ "") pre ++ [p].
Proof.
  intros Hpaths Hpre Hp _. unfold Config.LoadConfig. rewrite Hpaths.
  destruct (rangePaths_first_loadable pre p (mid ++ q :: post) tp c w)
    as (evs1 & Hreads & ->).
  - by apply Forall_Rejected_all.
  - by apply Loadable_at.
  - eexists. split; [done|].
    unfold reads in *. by rewrite omap_app, Hreads.
Qed.

(** C6.  When the loop goes past every candidate, none of them being
    both read and decoded, [LoadConfig] returns the marker error
    [ErrNoConfigFound], a constant that carries no data. *)
Theorem LoadConfig_exhausted c w :
  AllRejected (w_fs w) (Conf c) (confPaths c) →
  ∃ evs,
    LoadConfig c w
    = (Done (withConf c (passAll (w_fs w) (confPaths c) (Conf c)),
             Some ErrNoConfigFound), w, evs)
    ∧ reads evs = filter (λ cd, cd ≠ "") (confPaths c).
Proof.
  intros Hall. unfold Config.LoadConfig.
  destruct (rangePaths_rejected (confPaths c) [] c w Hall)
    as (evs1 & Hreads & Hloop).
  rewrite app_nil_r in Hloop. rewrite Hloop. simpl.
  exists (evs1 ++ []). split; [done|]. by rewrite app_nil_r.
Qed.

(** C7.  A candidate that is read but not decoded makes the loop log a
    warning and go on with the candidates after it; when one of these is
    the first to hold a readable and decodable file, [LoadConfig]
    returns nil with the object decoded from that file. *)
Theorem LoadConfig_skips_undecodable c w pre bad rest tb conf1 e :
  confPaths c = pre ++ bad :: rest →
  AllRejected (w_fs w) (Conf c) pre →
  bad ≠ "" →
  ReadFile (w_fs w) bad = Ok tb →
  Decode tb (passAll (w_fs w) pre (Conf c)) = (conf1, Some e) →
  ∃ evs1,
    reads evs1 = filter (λ cd, cd ≠ "") pre
    ∧ LoadConfig c w
      = (let '(o, w', evs) := rangePaths rest (withConf c conf1) w in
         (o, w', evs1 ++ [logTrying bad; EvRead bad; logUndecodable bad e]
                      ++ evs))
    ∧ ∀ mid good post tg,
        rest = mid ++ good :: post →
        Forall (Rejected (w_fs w)) mid →
        Loadable (w_fs w) good tg →
        ∃ evs2,
          reads evs2 = filter (λ cd, cd ≠ "") mid ++ [good]
          ∧ rangePaths rest (withConf c conf1) w
            = (Done (withConf c (Decode tg (passAll (w_fs w) mid conf1)).1,
                     None), w, evs2).
Proof.
  intros Hpaths Hpre Hne Hrd Hdec. unfold Config.LoadConfig. rewrite Hpaths.
  destruct (rangePaths_rejected pre (bad :: rest) c w Hpre)
    as (evs1 & Hreads & ->).
  exists evs1. split; [done|]. split.
  - set (cm := withConf c (passAll (w_fs w) pre (Conf c))).
    rewrite (rangePaths_continue bad rest cm (withConf cm conf1) w
               [logTrying bad; EvRead bad; logUndecodable bad e])
      by by eapply tryPath_malformed.
    simpl. by destruct (rangePaths rest _ w) as [[o w'] evs].
  - intros mid good post tg -> Hmid Hgood.
    destruct (rangePaths_first_loadable mid good post tg (withConf c conf1) w)
      as (evs2 & Hreads2 & ->).
    + by apply Forall_Rejected_all.
    + by apply Loadable_at.
    + eexists. split; [|done].
      unfold reads in *. by rewrite omap_app, Hreads2.
Qed.

Lemma AllRejected_unreadable fs conf cds :
  (∀ cd, cd ∈ cds → cd ≠ "" → Unreadable fs cd) →
  AllRejected fs conf cds ∧ passAll fs cds conf = conf.
Proof.
  induction cds as [|cd rest IH]; intros Hno; [done|].
  assert (cd = "" ∨ Unreadable fs cd) as Hcd.
  { destruct (decide (cd = "")); [by left|right].
    apply Hno; [by left|done]. }
  assert (passOver fs conf cd = conf) as Hsame.
  { destruct Hcd as [->|?]; [done|by apply passOver_unreadable]. }
  destruct IH as [Hrest Hpass].
  { intros cd' ?. apply Hno. by right. }
  simpl. unfold Config.passAll in *. simpl. rewrite Hsame. split; [|done].
  split; [|done]. destruct Hcd; [by left|by right; left].
Qed.

(** With no candidate file to read, [LoadConfig] returns
    [ErrNoConfigFound] and the manager is as it was. *)
Lemma LoadConfig_unreadable c w :
  (∀ cd, cd ∈ confPaths c → cd ≠ "" → Unreadable (w_fs w) cd) →
  ∃ evs, LoadConfig c w = (Done (c, Some ErrNoConfigFound), w, evs).
Proof.
  intros Hno.
  destruct (AllRejected_unreadable (w_fs w) (Conf c) (confPaths c) Hno)
    as [Hall Hpass].
  destruct (rangePaths_rejected (confPaths c) [] c w Hall)
    as (evs & _ & Hrun).
  rewrite app_nil_r, Hpass, withConf_Conf in Hrun.
  exists (evs ++ []). unfold Config.LoadConfig. by rewrite Hrun.
Qed.

(** *** [New] *)

Lemma New_unfold defaultConf confDir fileName config autoload w :
  New defaultConf confDir fileName config autoload w
  = match Decode defaultConf config with
    | (conf', Some e) =>
        (Done (None, Some (Errorf ("failed to decode default config: " +:+ e))),
         w, [])
    | (conf', None) =>
        let c := built defaultConf confDir fileName (w_env w "HOME") conf' in
        if autoload then
          match LoadConfig c w with
          | (Done (c1, Some ErrNoConfigFound), w1, evs) =>
              let '(fs', werr) :=
                WriteFile (w_fs w1) fileName defaultConf perm0644 in
              let w2 := mkWorld fs' (w_env w1) in
              let evs2 :=
                evs ++ [EvLog Info
                          ("No configuration files were found, a new one will be "
                           +:+ "generated in the present working directory") [];
                        EvWrite fileName defaultConf perm0644] in
              match werr with
              | None => (Exit 0%Z, w2, evs2)
              | Some e =>
                  (Exit 1%Z, w2,
                   evs2 ++ EvLog Warn
                     ("A default config file could not be created in this directory "
                      +:+ "for the following reason: %s." +:+ nl +:+ nl
                      +:+ "Please manually create a configuration file in one "
                      +:+ "of the following places:" +:+ nl) [e; fileName]
                     :: (EvPrintln <$> confPaths c1))
              end
          | (Done (c1, _), w1, evs) =>
              (Done (Some c1, None), w1,
               evs ++ [EvLog Info "Successfully loaded configuration file" []])
          | (Exit code, w1, evs) => (Exit code, w1, evs)
          end
        else (Done (Some c, None), w, [])
    end.
Proof.
  unfold Config.New, bind at 1, getenv. simpl.
  destruct (Decode defaultConf config) as [conf' [e|]]; [done|].
  destruct autoload; [|done]. simpl. fold (built defaultConf confDir fileName
    (w_env w "HOME") conf').
  unfold bind at 1.
  destruct (LoadConfig _ w) as [[[[c1 r]|code] w1] evs]; [|done].
  simpl. destruct r as [[|msg]|]; [|done..].
  unfold bind, log, emit, writeFile. simpl.
  destruct (WriteFile (w_fs w1) fileName defaultConf perm0644) as [fs' [e|]].
  - rewrite printAll_events. simpl. unfold exit.
    by rewrite app_nil_r, <- app_assoc.
  - done.
Qed.

(** With the empty string for the directory, the first candidate is the
    file name under the root directory, which is not the empty string, and
    the loop body reads it. *)
Lemma candidates_empty_confDir fileName home c w :
  ∃ rest b c' evs,
    candidates "" fileName home = ("/" +:+ fileName) :: rest
    ∧ "/" +:+ fileName ≠ ""
    ∧ tryPath ("/" +:+ fileName) c w
      = (Done (c', b), w,
         logTrying ("/" +:+ fileName) :: EvRead ("/" +:+ fileName) :: evs).
Proof.
  assert ("/" +:+ fileName ≠ "") as Hne by done.
  destruct (ReadFile (w_fs w) ("/" +:+ fileName)) as [t|e] eqn:Hrd.
  - destruct (Decode t (Conf c)) as [conf' [e|]] eqn:Hdec.
    + eexists _, _, _, _. split_and!; [done..|]. by eapply tryPath_malformed.
    + eexists _, _, _, _. split_and!; [done..|]. by eapply tryPath_decoded.
  - eexists _, _, _, _. split_and!; [done..|]. by eapply tryPath_unreadable.
Qed.

(** The manager [New] returns is the one it has built, with the object as
    [LoadConfig] left it. *)
Lemma New_manager defaultConf confDir fileName config autoload w c r w' evs :
  New defaultConf confDir fileName config autoload w = (Done (Some c, r), w', evs) →
  confPaths c = candidates confDir fileName (w_env w "HOME")
  ∧ Config.fileName c = fileName
  ∧ defaultConfig c = defaultConf
  ∧ r = None ∧ w' = w.
Proof.
  rewrite New_unfold.
  destruct (Decode defaultConf config) as [conf' [e|]]; [done|].
  destruct autoload; cbv zeta; [|by intros [= <- <- <- _]].
  destruct (LoadConfig_total
              (built defaultConf confDir fileName (w_env w "HOME") conf') w)
    as (c1 & r1 & evs1 & -> & Hc1 & Hr & _).
  destruct Hr as [->| ->].
  - intros [= <- <- <- _]. by rewrite Hc1.
  - by destruct (WriteFile (w_fs w) fileName defaultConf perm0644) as [fs' [e|]].
Qed.

(** C4.  When the default document is decoded and no candidate holds a
    file that can be read, the manager built without autoload holds the
    decoded defaults, and [LoadConfig] on it returns [ErrNoConfigFound]
    and leaves it, object included, as it was. *)
Theorem LoadConfig_none_readable_keeps_defaults
    defaultConf confDir fileName config w conf1 :
  Decode defaultConf config = (conf1, None) →
  (∀ cd, cd ∈ candidates confDir fileName (w_env w "HOME") →
         cd ≠ "" → Unreadable (w_fs w) cd) →
  let c := built defaultConf confDir fileName (w_env w "HOME") conf1 in
  New defaultConf confDir fileName config false w = (Done (Some c, None), w, [])
  ∧ Conf c = (Decode defaultConf config).1
  ∧ ∃ evs, LoadConfig c w = (Done (c, Some ErrNoConfigFound), w, evs).
Proof.
  intros Hdec Hno c. split_and!.
  - by rewrite New_unfold, Hdec.
  - by rewrite Hdec.
  - by apply LoadConfig_unreadable.
Qed.

(** C5.  When [New] is called with autoload, the default document is
    decoded and [LoadConfig] returns [ErrNoConfigFound], [New] logs the
    notice and writes the default document, as it is, to [fileName] with
    permission 0644; the process exits with status 0 when the write
    succeeds and with status 1 when it fails, after the warning and the
    list of candidate paths. *)
Theorem New_autoload_writes_default
    defaultConf confDir fileName config w conf1 c1 w1 evs :
  Decode defaultConf config = (conf1, None) →
  LoadConfig (built defaultConf confDir fileName (w_env w "HOME") conf1) w
  = (Done (c1, Some ErrNoConfigFound), w1, evs) →
  ∃ evs',
    New defaultConf confDir fileName config true w
    = (Exit (match (WriteFile (w_fs w) fileName defaultConf 420).2 with
             | None => 0
             | Some _ => 1
             end)%Z,
       mkWorld (WriteFile (w_fs w) fileName defaultConf 420).1 (w_env w),
       evs ++ [EvLog Info
                 ("No configuration files were found, a new one will be "
                  +:+ "generated in the present working directory") [];
               EvWrite fileName defaultConf 420] ++ evs')
    ∧ match (WriteFile (w_fs w) fileName defaultConf 420).2 with
      | None => evs' = []
      | Some e =>
          ∃ format,
            evs' = EvLog Warn format [e; fileName]
                   :: (EvPrintln <$> candidates confDir fileName (w_env w "HOME"))
      end.
Proof.
  intros Hdec Hrun.
  destruct (LoadConfig_total
              (built defaultConf confDir fileName (w_env w "HOME") conf1) w)
    as (c' & r & evs0 & Hrun' & Hc' & _).
  rewrite Hrun' in Hrun. injection Hrun as Hc1 Hr Hw Hevs. subst c1 r w1 evs.
  rewrite New_unfold, Hdec. cbv zeta. rewrite Hrun'. unfold perm0644.
  destruct (WriteFile (w_fs w) fileName defaultConf 420) as [fs' [e|]]; simpl.
  - eexists. split; [by rewrite <- app_assoc|].
    eexists. by rewrite Hc'.
  - by exists [].
Qed.

(** C8.  When the default document is not decoded, [New] returns the nil
    manager and an error, whatever the autoload flag; it has read no
    file, logged nothing and left the world as it was. *)
Theorem New_default_undecodable
    defaultConf confDir fileName config autoload w conf' e :
  Decode defaultConf config = (conf', Some e) →
  New defaultConf confDir fileName config autoload w
  = (Done (None, Some (Errorf ("failed to decode default config: " +:+ e))),
     w, []).
Proof. intros Hdec. by rewrite New_unfold, Hdec. Qed.

(** C10.  [LoadConfig] always returns; the candidate paths, the file
    name and the default document of the manager are as before, the
    world is as before, and the events are log lines and reads only.  A
    candidate whose file cannot be read leaves the manager, object
    included, as it was. *)
Theorem LoadConfig_frame c w cd :
  (∃ c' r evs,
     LoadConfig c w = (Done (c', r), w, evs)
     ∧ confPaths c' = confPaths c
     ∧ fileName c' = fileName c
     ∧ defaultConfig c' = defaultConfig c
     ∧ Forall quiet evs)
  ∧ (cd ≠ "" → Unreadable (w_fs w) cd →
     ∃ evs, tryPath cd c w = (Done (c, false), w, evs)).
Proof.
  split.
  - destruct (LoadConfig_total c w) as (c' & r & evs & Hrun & Hc' & _ & Hq).
    exists c', r, evs. split_and!; [done|by rewrite Hc'..|done].
  - intros Hne [e He]. eexists. by apply tryPath_unreadable.
Qed.

(** *** What a run of the search tells *)

Lemma candidate_cases fs conf cd :
  RejectedAt fs conf cd ∨ ∃ t, LoadableAt fs conf cd t.
Proof.
  destruct (decide (cd = "")) as [->|Hne]; [by left; left|].
  destruct (ReadFile fs cd) as [t|e] eqn:Hrd.
  - destruct (Decode t conf).2 as [e|] eqn:Herr.
    + left. right; right. exists t. by rewrite Herr.
    + right. by exists t.
  - left. right; left. by exists e.
Qed.


(** A run of the loop is either a run past every candidate, or a run past
    the candidates before the first one that is read and decoded. *)
Lemma rangePaths_inv paths c w c' r w' evs :
  rangePaths paths c w = (Done (c', r), w', evs) →
  w' = w
  ∧ ((r = Some ErrNoConfigFound
      ∧ AllRejected (w_fs w) (Conf c) paths
      ∧ c' = withConf c (passAll (w_fs w) paths (Conf c))
      ∧ reads evs = filter (λ cd, cd ≠ "") paths)
     ∨ (r = None
        ∧ ∃ pre p post t,
            paths = pre ++ p :: post
            ∧ AllRejected (w_fs w) (Conf c) pre
            ∧ LoadableAt (w_fs w) (passAll (w_fs w) pre (Conf c)) p t
            ∧ c' = withConf c (Decode t (passAll (w_fs w) pre (Conf c))).1
            ∧ reads evs = filter (λ cd, cd ≠ "") pre ++ [p])).
Proof.
  revert c evs. induction paths as [|cd rest IH]; intros c evs Hrun.
  { injection Hrun as <- <- <- <-. split; [done|]. left.
    by rewrite withConf_Conf. }
  destruct (candidate_cases (w_fs w) (Conf c) cd) as [Hrej|[t Hload]].
  - destruct (tryPath_rejected cd c w Hrej) as (evs1 & Hbody & Hreads1 & _).
    rewrite (rangePaths_continue _ _ _ _ _ _ Hbody) in Hrun.
    destruct (rangePaths rest _ w) as [[o w2] evs2] eqn:Hrest.
    injection Hrun as -> -> <-.
    destruct (IH _ _ Hrest) as [-> Hcases]. split; [done|].
    assert (∀ l, reads evs2 = l →
              reads (evs1 ++ evs2) = filter (λ x, x ≠ "") [cd] ++ l) as Hrd.
    { intros l <-. unfold reads in *. by rewrite omap_app, Hreads1. }
    destruct Hcases as [(-> & Hall & -> & Hreads2)
                       |(-> & pre & p & post & t & -> & Hall & Hload & -> & Hreads2)].
    + left. split_and!; [done|by split|done|].
      rewrite (Hrd _ Hreads2). by rewrite <- filter_app.
    + right. split; [done|]. exists (cd :: pre), p, post, t.
      split_and!; [done|by split|done..|].
      rewrite (Hrd _ Hreads2), app_assoc. by rewrite <- filter_app.
  - destruct Hload as (Hne & Hrd & Hok).
    destruct (Decode t (Conf c)) as [conf' err] eqn:Hdec.
    simpl in Hok. subst err.
    rewrite (rangePaths_return _ _ _ _ _ _
               (tryPath_decoded _ _ _ _ _ Hne Hrd Hdec)) in Hrun.
    injection Hrun as <- <- <- <-. split; [done|]. right. split; [done|].
    exists [], cd, rest, t. split; [done|]. split; [done|]. split.
    + split; [done|]. split; [done|]. simpl. by rewrite Hdec.
    + split; [|done]. simpl. by rewrite Hdec.
Qed.

Lemma AllRejected_elem fs conf cds cd :
  AllRejected fs conf cds → cd ∈ cds → ∃ conf', RejectedAt fs conf' cd.
Proof.
  revert conf. induction cds as [|cd' rest IH]; intros conf Hall Hin.
  - by apply elem_of_nil in Hin.
  - destruct Hall as [Hcd Hrest].
    apply elem_of_cons in Hin as [->|Hin]; [by exists conf|by eapply IH].
Qed.

Lemma RejectedAt_not_Loadable fs conf cd t :
  RejectedAt fs conf cd → ¬ Loadable fs cd t.
Proof.
  intros [->|[[e He]|(t' & Ht' & Hbad)]] (Hne & Hrd & Hok); [done|congruence|].
  assert (t' = t) as -> by congruence. by apply Hbad.
Qed.

(** X5.  Whatever the files, [LoadConfig] reads candidates only, each
    non-empty candidate at most once per place in the list and in the
    order of the list: the paths it has read are a prefix of the non-empty
    candidate paths. *)
Theorem LoadConfig_reads_in_order c w :
  ∃ c' r evs,
    LoadConfig c w = (Done (c', r), w, evs)
    ∧ reads evs `prefix_of` filter (λ cd, cd ≠ "") (confPaths c).
Proof.
  destruct (LoadConfig_total c w) as (c' & r & evs & Hrun & _).
  exists c', r, evs. split; [done|].
  destruct (rangePaths_inv _ _ _ _ _ _ _ Hrun)
    as [_ [(_ & _ & _ & ->)|(_ & pre & p & post & t & Hpaths & _ & Hp & _ & ->)]].
  - done.
  - rewrite Hpaths, filter_app, filter_cons_True by apply Hp.
    apply prefix_app, prefix_cons, prefix_nil.
Qed.

(** X6.  When [LoadConfig] returns [ErrNoConfigFound], the loop has gone
    past every candidate: it has read every non-empty candidate path, in
    order, the object holds what the decoding of the files it could read
    has left there, and no candidate holds a file that can be read and is
    decoded whatever the object holds. *)
Theorem LoadConfig_not_found_inv c w c' w' evs :
  LoadConfig c w = (Done (c', Some ErrNoConfigFound), w', evs) →
  AllRejected (w_fs w) (Conf c) (confPaths c)
  ∧ c' = withConf c (passAll (w_fs w) (confPaths c) (Conf c))
  ∧ reads evs = filter (λ cd, cd ≠ "") (confPaths c)
  ∧ ∀ cd t, cd ∈ confPaths c → ¬ Loadable (w_fs w) cd t.
Proof.
  intros Hrun.
  destruct (rangePaths_inv _ _ _ _ _ _ _ Hrun)
    as [_ [(_ & Hall & Hc' & Hreads)|(? & _)]]; [|done].
  split_and!; [done..|].
  intros cd t Hin. destruct (AllRejected_elem _ _ _ _ Hall Hin) as [conf' Hrej].
  by eapply RejectedAt_not_Loadable.
Qed.

(** X7.  When [LoadConfig] returns nil, exactly one candidate was decoded
    with success: the loop has gone past the candidates before it, it is
    the last file read, the object holds the result of decoding it, and
    no candidate after it was read. *)
Theorem LoadConfig_nil_inv c w c' w' evs :
  LoadConfig c w = (Done (c', None), w', evs) →
  ∃ pre p post t,
    confPaths c = pre ++ p :: post
    ∧ AllRejected (w_fs w) (Conf c) pre
    ∧ LoadableAt (w_fs w) (passAll (w_fs w) pre (Conf c)) p t
    ∧ c' = withConf c (Decode t (passAll (w_fs w) pre (Conf c))).1
    ∧ reads evs = filter (λ cd, cd ≠ "") pre ++ [p]
    ∧ last (reads evs) = Some p.
Proof.
  intros Hrun.
  destruct (rangePaths_inv _ _ _ _ _ _ _ Hrun)
    as [_ [(? & _)|(_ & pre & p & post & t & Hpaths & Hall & Hp & Hc' & Hreads)]];
    [done|].
  exists pre, p, post, t. split_and!; [done..|].
  by rewrite Hreads, last_snoc.
Qed.

Lemma searchEvent_mono fs paths paths' e :
  paths ⊆ paths' → searchEvent Decode ReadFile fs paths e →
  searchEvent Decode ReadFile fs paths' e.
Proof. intros Hsub (cd & Hin & Hrest). exists cd. split; [by apply Hsub|done]. Qed.

Lemma tryPath_events cd c w :
  ∃ c' b evs,
    tryPath cd c w = (Done (c', b), w, evs)
    ∧ Forall (searchEvent Decode ReadFile (w_fs w) [cd]) evs.
Proof.
  destruct (decide (cd = "")) as [->|Hne]; [by exists c, false, []|].
  assert (cd ∈ [cd]) as Hin by by left.
  destruct (ReadFile (w_fs w) cd) as [t|e] eqn:Hrd.
  - destruct (Decode t (Conf c)) as [conf' [e|]] eqn:Hdec.
    + eexists _, _, _. split; [by eapply tryPath_malformed|].
      repeat constructor; exists cd; (split; [done|split; [done|]]).
      * by left.
      * by right; left.
      * right; right; right. exists t, (Conf c), e. by rewrite Hdec.
    + eexists _, _, _. split; [by eapply tryPath_decoded|].
      repeat constructor; exists cd; (split; [done|split; [done|]]).
      * by left.
      * by right; left.
  - eexists _, _, _. split; [by eapply tryPath_unreadable|].
    repeat constructor; exists cd; (split; [done|split; [done|]]).
    + by left.
    + by right; left.
    + right; right; left. by exists e.
Qed.

(** X8.  Every event of [LoadConfig] belongs to a non-empty candidate
    path: it is the announcement of the candidate, its read, the debug
    line with the error of a failed read, or the warning with the error
    of the decoder for a file that was read.  So a missing file is never
    warned about, nothing is logged at the info level, and nothing is
    written or printed. *)
Theorem LoadConfig_events c w :
  ∃ c' r evs,
    LoadConfig c w = (Done (c', r), w, evs)
    ∧ Forall (searchEvent Decode ReadFile (w_fs w) (confPaths c)) evs.
Proof.
  unfold Config.LoadConfig. generalize (confPaths c) as paths. intros paths.
  revert c. induction paths as [|cd rest IH]; intros c.
  { by exists c, (Some ErrNoConfigFound), []. }
  destruct (tryPath_events cd c w) as (c1 & b & evs1 & Hbody & Hev1).
  assert (Forall (searchEvent Decode ReadFile (w_fs w) (cd :: rest)) evs1) as H1.
  { eapply Forall_impl; [exact Hev1|]. intros e. apply searchEvent_mono.
    intros x ->%list_elem_of_singleton. by left. }
  destruct b.
  - exists c1, None, evs1. by rewrite (rangePaths_return _ _ _ _ _ _ Hbody).
  - destruct (IH c1) as (c' & r & evs2 & Hrest & Hev2).
    exists c', r, (evs1 ++ evs2).
    rewrite (rangePaths_continue _ _ _ _ _ _ Hbody), Hrest. split; [done|].
    apply Forall_app. split; [done|].
    eapply Forall_impl; [exact Hev2|]. intros e. apply searchEvent_mono.
    intros x ?. by right.
Qed.


(** *** What a call of [New] tells *)


(** X2.  When [New] returns, the world is as it was and the events are
    log lines and reads only; without autoload there is no event at all.
    What it returns is either a manager with a nil error, the default
    document having been decoded, or the nil manager with the error that
    wraps the one of the decoder; it never returns [ErrNoConfigFound]. *)
Theorem New_returns_quietly
    defaultConf confDir fileName config autoload w r w' evs :
  New defaultConf confDir fileName config autoload w = (Done r, w', evs) →
  w' = w
  ∧ Forall quiet evs
  ∧ (autoload = false → evs = [])
  ∧ ((∃ c, r = (Some c, None)
           ∧ (Decode defaultConf config).2 = None
           ∧ c = built defaultConf confDir fileName (w_env w "HOME") (Conf c))
     ∨ (∃ e, r = (None, Some (Errorf ("failed to decode default config: " +:+ e)))
             ∧ (Decode defaultConf config).2 = Some e
             ∧ evs = [])).
Proof.
  rewrite New_unfold.
  destruct (Decode defaultConf config) as [conf' [e|]].
  { intros [= <- <- <-]. split_and!; [done..|]. right. by exists e. }
  destruct autoload; cbv zeta.
  - destruct (LoadConfig_total
                (built defaultConf confDir fileName (w_env w "HOME") conf') w)
      as (c1 & r1 & evs1 & -> & Hc1 & Hr & Hq).
    destruct Hr as [->| ->].
    + intros [= <- <- <-]. split_and!; [done| |done|].
      * apply Forall_app. split; [done|]. by repeat constructor.
      * left. exists c1. split_and!; [done..|]. by rewrite Hc1 at 1.
    + by destruct (WriteFile (w_fs w) fileName defaultConf perm0644)
        as [fs' [e|]].
  - intros [= <- <- <-]. split_and!; [done..|]. left. by eexists.
Qed.

(** X3.  [New] ends the process only with autoload, only when the default
    document was decoded and the search returned [ErrNoConfigFound], and
    only after it has asked for the default document to be written to
    [fileName]: with status 0 when the write returned no error, with
    status 1 when it returned one.  The world it leaves is the one the
    write has left. *)
Theorem New_exits_only_when_not_found
    defaultConf confDir fileName config autoload w code w' evs :
  New defaultConf confDir fileName config autoload w = (Exit code, w', evs) →
  autoload = true
  ∧ (∃ conf1 c1 evs0,
       Decode defaultConf config = (conf1, None)
       ∧ LoadConfig (built defaultConf confDir fileName (w_env w "HOME") conf1) w
         = (Done (c1, Some ErrNoConfigFound), w, evs0))
  ∧ w' = mkWorld (WriteFile (w_fs w) fileName defaultConf 420).1 (w_env w)
  ∧ EvWrite fileName defaultConf 420 ∈ evs
  ∧ ((code = 0%Z ∧ (WriteFile (w_fs w) fileName defaultConf 420).2 = None)
     ∨ (code = 1%Z
        ∧ ∃ e, (WriteFile (w_fs w) fileName defaultConf 420).2 = Some e)).
Proof.
  rewrite New_unfold.
  destruct (Decode defaultConf config) as [conf' [e|]]; [done|].
  destruct autoload; cbv zeta; [|done].
  destruct (LoadConfig_total
              (built defaultConf confDir fileName (w_env w "HOME") conf') w)
    as (c1 & r1 & evs1 & Hrun & _ & Hr & _).
  rewrite Hrun. destruct Hr as [->| ->]; [done|]. unfold perm0644.
  destruct (WriteFile (w_fs w) fileName defaultConf 420) as [fs' [e|]];
    intros [= <- <- <-]; simpl.
  - split_and!; [done|by eexists _, _, _|done| |right; eauto].
    rewrite <- app_assoc. apply elem_of_app. right. set_solver.
  - split_and!; [done|by eexists _, _, _|done| |by left].
    apply elem_of_app. right. set_solver.
Qed.

(** X4.  Of the five candidate paths [New] builds, the only one that can
    be the empty string, and so be skipped by the search, is the second,
    the file in the working directory, and it is so exactly when the file
    name is empty.  The candidate of the custom directory is never
    skipped, whatever the directory. *)
Theorem candidates_empty_only_working_dir confDir fileName home i cd :
  candidates confDir fileName home !! i = Some cd →
  (cd = "" ↔ i = 1 ∧ fileName = "").
Proof.
  assert (∀ a b, a +:+ b = "" → b = "") as Happ.
  { intros a b H. destruct a; [done|discriminate H]. }
  unfold candidates.
  destruct i as [|[|[|[|[|i]]]]]; simpl; intros Heq;
    try discriminate Heq; injection Heq as <-.
  - split; [|by intros [? _]].
    intros H. apply Happ in H. discriminate H.
  - split; [done|by intros [_ ?]].
  - split; [|by intros [? _]].
    intros H. apply Happ in H. discriminate H.
  - split; [|by intros [? _]]. intros H. discriminate H.
  - split; [|by intros [? _]]. intros H. discriminate H.
Qed.

(** X10.  Running the program again.  When [New], with autoload, has
    ended the process with status 0, the world it has left holds the
    default document under [fileName].  If that file is read back as it
    was written, the candidate of the custom directory is still not
    readable and the default document is decoded over the defaults, then
    [New] in that world returns the manager: it has read the two first
    candidates and loaded the generated file. *)
Theorem New_rerun_loads_generated
    defaultConf confDir fileName config w w' evs :
  New defaultConf confDir fileName config true w = (Exit 0%Z, w', evs) →
  fileName ≠ "" →
  Unreadable (w_fs w') (confDir +:+ "/" +:+ fileName) →
  ReadFile (w_fs w') fileName = Ok defaultConf →
  (Decode defaultConf (Decode defaultConf config).1).2 = None →
  w_fs w' = (WriteFile (w_fs w) fileName defaultConf 420).1
  ∧ ∃ evs',
      New defaultConf confDir fileName config true w'
      = (Done (Some (built defaultConf confDir fileName (w_env w' "HOME")
                       (Decode defaultConf (Decode defaultConf config).1).1),
               None), w', evs')
      ∧ reads evs' = [confDir +:+ "/" +:+ fileName; fileName].
Proof.
  intros Hfirst Hname Hdir Hfile Hagain.
  assert (w_fs w' = (WriteFile (w_fs w) fileName defaultConf 420).1
          ∧ (Decode defaultConf config).2 = None) as [Hfs Hdec].
  { rewrite New_unfold in Hfirst.
    destruct (Decode defaultConf config) as [conf' [e|]]; [done|].
    cbv zeta in Hfirst.
    destruct (LoadConfig_total
                (built defaultConf confDir fileName (w_env w "HOME") conf') w)
      as (c1 & r1 & evs1 & Hrun & _ & Hr & _).
    rewrite Hrun in Hfirst. destruct Hr as [->| ->]; [done|].
    unfold perm0644 in Hfirst.
    destruct (WriteFile (w_fs w) fileName defaultConf 420) as [fs' [e|]];
      [done|by injection Hfirst as <- _]. }
  split; [done|].
  destruct (Decode defaultConf config) as [conf1 err] eqn:Hdec1.
  simpl in Hdec, Hagain. subst err.
  set (home := w_env w' "HOME").
  set (dir := confDir +:+ "/" +:+ fileName) in *.
  assert (passAll (w_fs w') [dir] conf1 = conf1) as Hpass.
  { unfold Config.passAll. simpl. by apply passOver_unreadable. }
  destruct (rangePaths_first_loadable [dir] fileName
              [home +:+ "/.config/" +:+ fileName;
               "/usr/local/etc/" +:+ fileName; "/etc/" +:+ fileName]
              defaultConf (built defaultConf confDir fileName home conf1) w')
    as (evs1 & Hreads & Hrun).
  { split; [by right; left|done]. }
  { cbn [Conf Config.built]. rewrite Hpass. by split_and!. }
  cbn [Conf Config.built] in Hrun. rewrite Hpass in Hrun.
  eexists. split.
  - rewrite New_unfold, Hdec1. cbv zeta. unfold Config.LoadConfig. fold home.
    change (confPaths (built defaultConf confDir fileName home conf1))
      with ([dir] ++ fileName ::
            [home +:+ "/.config/" +:+ fileName;
             "/usr/local/etc/" +:+ fileName; "/etc/" +:+ fileName]).
    rewrite Hrun. reflexivity.
  - unfold reads in *. rewrite !omap_app, Hreads. simpl.
    rewrite filter_cons_True; [done|]. subst dir. by destruct confDir.
Qed.

(** *** A file refused after part of it was stored *)

(** C3.  The claim fails on the code.  When a candidate before the one
    that is loaded holds a file that is read and refused by the decoder,
    and no other file is read, [LoadConfig] returns nil after the warning
    and the object is the loaded file decoded over what the refused file
    has left in the object, not over what the object held before the
    call: a part of the object that the loaded document leaves as it is
    holds after the call what the refused file has stored there. *)
Theorem LoadConfig_refused_file_leaks
    {A : Type} (part : ConfT → A)
    c w pre bad mid good post tb tg conf1 e :
  confPaths c = pre ++ bad :: mid ++ good :: post →
  (∀ cd, cd ∈ pre ++ mid → cd ≠ "" → Unreadable (w_fs w) cd) →
  bad ≠ "" →
  ReadFile (w_fs w) bad = Ok tb →
  Decode tb (Conf c) = (conf1, Some e) →
  good ≠ "" →
  ReadFile (w_fs w) good = Ok tg →
  (Decode tg conf1).2 = None →
  part (Decode tg conf1).1 = part conf1 →
  ∃ c' evs,
    LoadConfig c w = (Done (c', None), w, evs)
    ∧ c' = withConf c (Decode tg conf1).1
    ∧ logUndecodable bad e ∈ evs
    ∧ last (reads evs) = Some good
    ∧ part (Conf c') = part conf1.
Proof.
  intros Hpaths Hno Hbad Hrdb Hdecb Hgood Hrdg Hokg Hpart.
  destruct (AllRejected_unreadable (w_fs w) (Conf c) pre) as [Hpre Hpass1].
  { intros cd Hin. apply Hno, elem_of_app. by left. }
  destruct (AllRejected_unreadable (w_fs w) conf1 mid) as [Hmid Hpass2].
  { intros cd Hin. apply Hno, elem_of_app. by right. }
  destruct (rangePaths_rejected pre (bad :: mid ++ good :: post) c w Hpre)
    as (evs1 & _ & Hrun1).
  rewrite Hpass1, withConf_Conf in Hrun1.
  destruct (rangePaths_first_loadable mid good post tg (withConf c conf1) w)
    as (evs2 & Hreads2 & Hrun2).
  { done. }
  { simpl. rewrite Hpass2. by split_and!. }
  simpl in Hrun2. rewrite Hpass2 in Hrun2.
  eexists _, _. split_and!.
  - unfold Config.LoadConfig. rewrite Hpaths, Hrun1.
    rewrite (rangePaths_continue _ _ _ _ _ _
               (tryPath_malformed _ _ _ _ _ _ Hbad Hrdb Hdecb)), Hrun2.
    reflexivity.
  - reflexivity.
  - apply elem_of_app. right. apply elem_of_app. left. set_solver.
  - unfold reads. by rewrite !omap_app, !last_app.
  - done.
Qed.

(** *** Calling [LoadConfig] twice *)


End Facts.

(** * The application *)

Section DemoFacts.
Import Demo.

(** Candidates of the application that the loop goes past. *)
Ltac unreadable := right; left; eexists; vm_compute; reflexivity.
Ltac undecoded :=
  right; right; eexists; split; [vm_compute; reflexivity|];
  try intros ?; vm_compute; discriminate.
Ltac loadable :=
  split_and!; [discriminate|vm_compute; reflexivity|];
  try intros ?; vm_compute; reflexivity.

Lemma LoadConfig_earliest_wins_witness :
  ∃ evs,
    loadConfig mgr (world fsTwo)
    = (Done (withConf mgr (mkAppConf 9000 "localhost"), None), world fsTwo, evs)
    ∧ reads evs = ["/opt/app/app.toml"; "app.toml"].
Proof.
  apply (LoadConfig_earliest_wins decode simRead mgr (world fsTwo)
           ["/opt/app/app.toml"] "app.toml"
           ["/home/app/.config/app.toml"; "/usr/local/etc/app.toml"]
           "/etc/app.toml" []
           (lines ["port = 9000"]) (lines ["host = 'example.org'"])).
  - reflexivity.
  - constructor; [unreadable|constructor].
  - loadable.
  - loadable.
Defined.

Lemma LoadConfig_exhausted_witness :
  ∃ evs,
    loadConfig mgr (world fsBad)
    = (Done (mgr, Some ErrNoConfigFound), world fsBad, evs)
    ∧ reads evs
      = ["/opt/app/app.toml"; "app.toml"; "/home/app/.config/app.toml";
         "/usr/local/etc/app.toml"; "/etc/app.toml"].
Proof.
  apply (LoadConfig_exhausted decode simRead mgr (world fsBad)).
  split; [unreadable|]. split; [undecoded|].
  split; [unreadable|]. split; [unreadable|]. split; [unreadable|].
  exact I.
Defined.

Lemma LoadConfig_skips_undecodable_witness :
  ∃ evs,
    loadConfig mgr (world fsBadGood)
    = (Done (withConf mgr (mkAppConf 7 "example.org"), None),
       world fsBadGood, evs)
    ∧ logUndecodable "app.toml" "toml: incompatible types for key host" ∈ evs.
Proof.
  destruct (LoadConfig_skips_undecodable decode simRead mgr (world fsBadGood)
              ["/opt/app/app.toml"] "app.toml"
              ["/home/app/.config/app.toml"; "/usr/local/etc/app.toml";
               "/etc/app.toml"]
              (lines ["port = 7"; "host = 5"]) (mkAppConf 7 "localhost")
              "toml: incompatible types for key host")
    as (evs1 & _ & Hrun & Hnext).
  - reflexivity.
  - split; [unreadable|exact I].
  - discriminate.
  - vm_compute; reflexivity.
  - vm_compute; reflexivity.
  - destruct (Hnext ["/home/app/.config/app.toml"; "/usr/local/etc/app.toml"]
                "/etc/app.toml" [] (lines ["host = 'example.org'"]))
      as (evs2 & _ & Hrest).
    + reflexivity.
    + constructor; [unreadable|]. constructor; [unreadable|constructor].
    + loadable.
    + eexists. split.
      * unfold loadConfig. rewrite Hrun, Hrest. reflexivity.
      * apply elem_of_app. right. set_solver.
Defined.

Lemma LoadConfig_none_readable_keeps_defaults_witness :
  new defaults "/opt/app" "app.toml" zero false (world fsNone)
  = (Done (Some mgr, None), world fsNone, [])
  ∧ Conf mgr = (decode defaults zero).1
  ∧ ∃ evs,
      loadConfig mgr (world fsNone)
      = (Done (mgr, Some ErrNoConfigFound), world fsNone, evs).
Proof.
  apply (LoadConfig_none_readable_keeps_defaults decode simRead simWrite
           defaults "/opt/app" "app.toml" zero (world fsNone)
           (mkAppConf 8080 "localhost")).
  - vm_compute; reflexivity.
  - intros cd _ _. eexists. unfold simRead. simpl.
    rewrite lookup_empty. reflexivity.
Defined.

Lemma New_autoload_writes_default_witness :
  (∃ evs,
     new defaults "/opt/app" "app.toml" zero true (world fsNone)
     = (Exit 0%Z,
        world (mkSimFS {[ "app.toml" := (420%Z, defaults) ]} false), evs)
     ∧ EvWrite "app.toml" defaults 420 ∈ evs)
  ∧ (∃ evs,
       new defaults "/opt/app" "app.toml" zero true (world fsLocked)
       = (Exit 1%Z, world fsLocked, evs)
       ∧ EvWrite "app.toml" defaults 420 ∈ evs).
Proof.
  split.
  - edestruct (New_autoload_writes_default decode simRead simWrite
                defaults "/opt/app" "app.toml" zero (world fsNone)
                (mkAppConf 8080 "localhost") mgr (world fsNone))
      as (evs' & Hnew & _).
    + vm_compute; reflexivity.
    + vm_compute; reflexivity.
    + eexists. split; [exact Hnew|].
      apply elem_of_app. right. apply elem_of_app. left. set_solver.
  - edestruct (New_autoload_writes_default decode simRead simWrite
                defaults "/opt/app" "app.toml" zero (world fsLocked)
                (mkAppConf 8080 "localhost") mgr (world fsLocked))
      as (evs' & Hnew & _).
    + vm_compute; reflexivity.
    + vm_compute; reflexivity.
    + eexists. split; [exact Hnew|].
      apply elem_of_app. right. apply elem_of_app. left. set_solver.
Defined.

Lemma New_default_undecodable_witness :
  new "port 8080" "/opt/app" "app.toml" zero true (world fsTwo)
  = (Done (None, Some (Errorf "failed to decode default config: toml: syntax error")),
     world fsTwo, []).
Proof.
  apply (New_default_undecodable decode simRead simWrite
           "port 8080" "/opt/app" "app.toml" zero true (world fsTwo)
           zero "toml: syntax error").
  vm_compute; reflexivity.
Defined.

Lemma LoadConfig_frame_witness :
  (∃ c' r evs,
     loadConfig mgr (world fsTwo) = (Done (c', r), world fsTwo, evs)
     ∧ confPaths c' = confPaths mgr
     ∧ fileName c' = "app.toml"
     ∧ defaultConfig c' = defaults
     ∧ Forall quiet evs)
  ∧ ∃ evs,
      tryPath decode simRead "/opt/app/app.toml" mgr (world fsTwo)
      = (Done (mgr, false), world fsTwo, evs).
Proof.
  destruct (LoadConfig_frame decode simRead mgr (world fsTwo)
              "/opt/app/app.toml") as [Hframe Hbody].
  split; [exact Hframe|]. apply Hbody.
  - discriminate.
  - eexists. vm_compute; reflexivity.
Defined.

Lemma LoadConfig_refused_file_leaks_witness :
  ∃ c' evs,
    loadConfig mgr (world fsBadGood) = (Done (c', None), world fsBadGood, evs)
    ∧ last (reads evs) = Some "/etc/app.toml"
    ∧ parse (lines ["host = 'example.org'"]) = Some [("host", VStr "example.org")]
    ∧ Port (Conf mgr) = 8080%Z
    ∧ Port (Conf c') = 7%Z.
Proof.
  destruct (LoadConfig_refused_file_leaks decode simRead Port
              mgr (world fsBadGood)
              ["/opt/app/app.toml"] "app.toml"
              ["/home/app/.config/app.toml"; "/usr/local/etc/app.toml"]
              "/etc/app.toml" []
              (lines ["port = 7"; "host = 5"]) (lines ["host = 'example.org'"])
              (mkAppConf 7 "localhost") "toml: incompatible types for key host")
    as (c' & evs & Hrun & _ & _ & Hlast & Hport).
  - reflexivity.
  - intros cd Hin _. apply list_elem_of_In in Hin. simpl in Hin.
    destruct Hin as [<-|[<-|[<-|[]]]]; eexists; vm_compute; reflexivity.
  - discriminate.
  - vm_compute; reflexivity.
  - vm_compute; reflexivity.
  - discriminate.
  - vm_compute; reflexivity.
  - vm_compute; reflexivity.
  - vm_compute; reflexivity.
  - exists c', evs. split; [exact Hrun|]. split; [exact Hlast|].
    split; [vm_compute; reflexivity|]. split; [reflexivity|exact Hport].
Defined.

(** C1, as stated, fails.  With the empty string for the directory the
    first candidate is [/app.toml], not the empty string: [New] with
    autoload reads it, before the file of the working directory, and
    loads it. *)
Theorem New_empty_confDir_reads_root :
  candidates "" "app.toml" "/home/app"
  = ["/app.toml"; "app.toml"; "/home/app/.config/app.toml";
     "/usr/local/etc/app.toml"; "/etc/app.toml"]
  ∧ new defaults "" "app.toml" zero true (world fsRoot)
    = (Done (Some (built defaults "" "app.toml" "/home/app"
                     (mkAppConf 9 "localhost")), None),
       world fsRoot,
       [logTrying "/app.toml"; EvRead "/app.toml";
        EvLog Info "Successfully loaded configuration file" []]).
Proof. split; vm_compute; reflexivity. Qed.



(** A fact and what follows from it. *)
Lemma and_then (A B : Prop) : A → (A → B) → A ∧ B.
Proof. tauto. Defined.


Lemma New_returns_quietly_witness :
  ∃ r evs,
    new defaults "/opt/app" "app.toml" zero true (world fsBadGood)
    = (Done r, world fsBadGood, evs)
    ∧ Forall quiet evs.
Proof.
  eexists _, _. apply and_then; [vm_compute; reflexivity|].
  intros Hnew.
  exact (proj1 (proj2 (New_returns_quietly decode simRead simWrite
                         defaults "/opt/app" "app.toml" zero true
                         (world fsBadGood) _ _ _ Hnew))).
Defined.

Lemma New_exits_only_when_not_found_witness :
  ∃ evs,
    new defaults "/opt/app" "app.toml" zero true (world fsLocked)
    = (Exit 1%Z, world fsLocked, evs)
    ∧ EvWrite "app.toml" defaults 420 ∈ evs.
Proof.
  eexists. apply and_then; [vm_compute; reflexivity|].
  intros Hnew.
  exact (proj1 (proj2 (proj2 (proj2
           (New_exits_only_when_not_found decode simRead simWrite
              defaults "/opt/app" "app.toml" zero true
              (world fsLocked) _ _ _ Hnew))))).
Defined.

Lemma candidates_empty_only_working_dir_witness :
  candidates "/opt/app" "" "/home/app" !! 1 = Some ""
  ∧ ("" = "" ↔ 1 = 1 ∧ "" = "").
Proof.
  apply and_then; [reflexivity|].
  apply (candidates_empty_only_working_dir "/opt/app" "" "/home/app" 1 "").
Defined.

Lemma LoadConfig_not_found_inv_witness :
  ∃ evs,
    loadConfig mgr (world fsBad)
    = (Done (mgr, Some ErrNoConfigFound), world fsBad, evs)
    ∧ reads evs = filter (λ cd, cd ≠ "") (confPaths mgr).
Proof.
  eexists. apply and_then; [vm_compute; reflexivity|].
  intros Hrun.
  exact (proj1 (proj2 (proj2
           (LoadConfig_not_found_inv decode simRead mgr (world fsBad)
              _ _ _ Hrun)))).
Defined.

Lemma LoadConfig_nil_inv_witness :
  ∃ c' evs,
    loadConfig mgr (world fsBadGood) = (Done (c', None), world fsBadGood, evs)
    ∧ ∃ p, last (reads evs) = Some p.
Proof.
  eexists _, _. apply and_then; [vm_compute; reflexivity|].
  intros Hrun.
  destruct (LoadConfig_nil_inv decode simRead mgr (world fsBadGood) _ _ _ Hrun)
    as (pre & p & post & t & _ & _ & _ & _ & _ & Hlast).
  exists p. exact Hlast.
Defined.


Lemma New_rerun_loads_generated_witness :
  ∃ evs',
    new defaults "/opt/app" "app.toml" zero true
      (world (mkSimFS {[ "app.toml" := (420%Z, defaults) ]} false))
    = (Done (Some mgr, None),
       world (mkSimFS {[ "app.toml" := (420%Z, defaults) ]} false), evs')
    ∧ reads evs' = ["/opt/app/app.toml"; "app.toml"].
Proof.
  edestruct (New_rerun_loads_generated decode simRead simWrite
               defaults "/opt/app" "app.toml" zero (world fsNone)
               (world (mkSimFS {[ "app.toml" := (420%Z, defaults) ]} false)))
    as (_ & evs' & Hnew & Hreads).
  - vm_compute; reflexivity.
  - discriminate.
  - eexists. vm_compute; reflexivity.
  - vm_compute; reflexivity.
  - vm_compute; reflexivity.
  - exists evs'. split; [exact Hnew|exact Hreads].
Defined.
End DemoFacts.
